(** * eslint-plugin-hireup: the [no-sails] rule

    A shallow embedding of [src/index.js] and the properties of the rule
    that follow from it.

    The rule is a pure, read-only analysis of two structures that the host
    (ESLint) owns: the syntax tree (ESTree nodes) and the scope graph
    (eslint-scope).  Both are modelled as the code reads them:

    - a node is a tagged union on its [type], together with the identity of
      the JavaScript object ([uid], so that [===] on nodes is equality
      of identities) and its source location;
    - a [Scope] has its [set] (a JavaScript [Map] from names to variables,
      here a [gmap]), its [through] references and its [upper] scope;
    - [context.report] appends to the list of diagnostics held by the
      context, which is threaded explicitly. *)

From Stdlib Require Import ZArith List Bool Ascii String Lia.
From Stdlib Require Import Decimal DecimalFacts DecimalString DecimalPos DecimalN.
From stdpp Require Import base option list strings gmap.

Local Open Scope string_scope.
Local Open Scope list_scope.
Set Warnings "-register-all".

(** ** JavaScript values read by the rule *)

Module JS.

(** *** Numbers and [Number::toString]

    The value of a numeric literal is an IEEE double.  ECMA-262
    (Number::toString, radix 10) renders a finite non-zero double from the
    integers [s], [k] and [n] with [10^(k-1) <= s < 10^k], value
    [s * 10^(n-k)] and [k] as small as possible: [s] holds the shortest
    decimal digits that denote the double.  A number is represented here by
    that decomposition, [Finite negative s e] standing for
    [(+/-) s * 10^e] with [s] not a multiple of ten, so that [k] is the
    number of digits of [s] and [n = e + k]. *)
Inductive number : Type :=
| NaN
| Infinity (negative : bool)
| Zero (negative : bool)
| Finite (negative : bool) (s : positive) (e : Z).

(** The decimal digits of a positive integer, most significant first. *)
Definition digits (p : positive) : string :=
  NilEmpty.string_of_uint (Pos.to_uint p).

(** The decimal digits of a natural number ([0] is ["0"]). *)
Definition decimal (v : N) : string :=
  match v with
  | N0 => "0"
  | Npos p => digits p
  end.

Fixpoint zeros (count : nat) : string :=
  match count with
  | O => ""
  | S count' => String "0" (zeros count')
  end.

Definition sign_prefix (negative : bool) : string :=
  if negative then "-" else "".

(** Number::toString(x, 10), ECMA-262 6.1.6.1.20, steps 1 to 12. *)
Definition Number_toString (x : number) : string :=
  match x with
  | NaN => "NaN"
  | Zero _ => "0"
  | Infinity negative => sign_prefix negative +:+ "Infinity"
  | Finite negative s e =>
      let d := digits s in
      let k := Z.of_nat (String.length d) in
      let n := (e + k)%Z in
      sign_prefix negative +:+
      (if (k <=? n)%Z && (n <=? 21)%Z then
         d +:+ zeros (Z.to_nat (n - k))
       else if (0 <? n)%Z && (n <=? 21)%Z then
         substring 0 (Z.to_nat n) d +:+ "." +:+
         substring (Z.to_nat n) (Z.to_nat (k - n)) d
       else if (-6 <? n)%Z && (n <=? 0)%Z then
         "0." +:+ zeros (Z.to_nat (- n)) +:+ d
       else
         let exponent :=
           (if (n - 1 <? 0)%Z then "-" else "+") +:+
           decimal (Z.to_N (Z.abs (n - 1))) in
         if (k =? 1)%Z then d +:+ "e" +:+ exponent
         else substring 0 1 d +:+ "." +:+
              substring 1 (Z.to_nat (k - 1)) d +:+ "e" +:+ exponent)
  end.

(** Trailing zeros of a little-endian digit sequence are the power of ten
    of the decomposition. *)
Fixpoint strip_zeros (d : uint) (e : Z) : uint * Z :=
  match d with
  | D0 d' => strip_zeros d' (e + 1)
  | _ => (d, e)
  end.

(** The double whose value is the non-negative integer [v], for [v] below
    [2^53]: a double holds each of these integers exactly, with the digits
    of [v] less its trailing zeros as the shortest digits.  From [2^53] on
    the parser rounds what is written to the nearest double, whose digits
    are not those of [v]: these are left out ([None]). *)
Definition number_of_N (v : N) : option number :=
  if (v <? 2 ^ 53)%N then
    match v with
    | N0 => Some (Zero false)
    | Npos p =>
        let '(d, e) := strip_zeros (Pos.to_little_uint p) 0 in
        match Unsigned.of_lu d with
        | Npos s => Some (Finite false s e)
        | N0 => None
        end
    end
  else None.

(** *** The value of a [Literal] node and [String(value)] *)

Inductive literal_value : Type :=
| StringValue (s : string)
| BooleanValue (b : bool)
| NullValue
| NumberValue (x : number)
| RegExpValue (source flags : string)
| BigIntValue (v : N).

(** [String(value)]: ToString on primitives; a RegExp object renders through
    [RegExp.prototype.toString] as [/source/flags]. *)
Definition String_of (value : literal_value) : string :=
  match value with
  | StringValue s => s
  | BooleanValue b => if b then "true" else "false"
  | NullValue => "null"
  | NumberValue x => Number_toString x
  | RegExpValue source flags => "/" +:+ source +:+ "/" +:+ flags
  | BigIntValue v => decimal v
  end.

(** *** What [isAllowed] can return

    [propertyName && allowed.indexOf(propertyName) !== -1] evaluates to its
    left operand when that is falsy ([null] or the empty string) and to the
    boolean on the right otherwise. *)
Inductive value : Type :=
| Null
| Str (s : string)
| Boolean (b : bool).

(** ToBoolean. *)
Definition truthy (v : value) : bool :=
  match v with
  | Null => false
  | Str s => negb (String.eqb s "")
  | Boolean b => b
  end.

(** [Array.prototype.indexOf] on an array of strings: the index of the
    first element strictly equal to [searchElement], or [-1]. *)
Fixpoint indexOf (elements : list string) (searchElement : string) : Z :=
  match elements with
  | [] => -1
  | element :: rest =>
      if String.eqb element searchElement then 0
      else
        let index := indexOf rest searchElement in
        if (index =? -1)%Z then -1 else index + 1
  end%Z.

End JS.

(** ** The syntax tree (ESTree), as far as the rule reads it *)

Module ESTree.

Record Position : Type := { line : nat; column : nat }.

Record SourceLocation : Type := { start : Position; finish : Position }.

(** A quasi of a template literal; [cooked] is [quasi.value.cooked].  It is
    a string for every untagged template: an invalid escape, which leaves
    it undefined, is a syntax error outside a tagged template. *)
Record TemplateElement : Type := { cooked : string; raw : string }.

(** The node types the rule does not look into. *)
Inductive other_type : Type :=
| BinaryExpression
| TaggedTemplateExpression
| CallExpression
| PrivateIdentifier
| ThisExpression
| AssignmentExpression
| ExpressionStatement
| VariableDeclarator
| ReturnStatement
| JSXMemberExpression
| Program.

(** A node: the identity of the object ([uid]), its [loc] and the fields of
    its [type].  [Property] and [MethodDefinition] list the fields that
    [getStaticPropertyName] reads. *)
Inductive node : Type :=
| Node (uid : nat) (loc : SourceLocation) (syntax : node_syntax)
with node_syntax : Type :=
| Identifier (name : string)
| Literal (value : JS.literal_value)
| TemplateLiteral (quasis : list TemplateElement) (expressions : list node)
| MemberExpression (object property : node) (computed : bool)
| Property (key : node) (computed : bool)
| MethodDefinition (key : node) (computed : bool)
| Other (type : other_type).

Definition uid (n : node) : nat := let 'Node u _ _ := n in u.
Definition loc (n : node) : SourceLocation := let 'Node _ l _ := n in l.
Definition syntax (n : node) : node_syntax := let 'Node _ _ s := n in s.

(** [a === b] on two nodes: the same object. *)
Definition same_node (a b : node) : bool := Nat.eqb (uid a) (uid b).

(** [node.name], undefined on the nodes that have none. *)
Definition name (n : node) : option string :=
  match syntax n with
  | Identifier name => Some name
  | _ => None
  end.

(** A node reached from the scope graph, with its [parent] link.  ESLint
    sets [parent] on every node below [Program], and the identifier of a
    reference is never the program itself. *)
Record linked_node : Type := { self :> node; parent : node }.

End ESTree.

Import ESTree.

(** ** The scope graph (eslint-scope) *)

Record Reference : Type := { identifier : linked_node }.

(** A definition of a variable: its kind (["Parameter"], ["Variable"],
    ["ImportBinding"], ...) and the declaring identifier. *)
Record VariableDefinition : Type := { def_type : string; def_name : node }.

Record ScopeVariable : Type := {
  variable_name : string;
  defs : list VariableDefinition;
  references : list Reference
}.

Inductive Scope : Type := mkScope {
  set : gmap string ScopeVariable;
  through : list Reference;
  upper : option Scope
}.

(** ** The rule's context *)

(** The options the schema admits: an object with an optional [allow]. *)
Record RuleOptions : Type := { allow : option (list string) }.

Record Diagnostic : Type := {
  node : ESTree.node;
  diagnostic_loc : SourceLocation;
  messageId : string;
  propertyName : option string   (* data: { propertyName } *)
}.

(** [context]: the configured [options], the scope [context.getScope()]
    answers at the end of the program, and the diagnostics reported so
    far. *)
Record Context : Type := {
  options : list RuleOptions;
  getScope : Scope;
  reports : list Diagnostic
}.

(** [context.report(d)]. *)
Definition context_report (context : Context) (d : Diagnostic) : Context :=
  {| options := options context;
     getScope := getScope context;
     reports := reports context ++ [d] |}.

(** ** Helpers (index.js, lines 136-222) *)

(** [getStaticPropertyName(node)]; [None] is [null]. *)
Definition getStaticPropertyName (node : option ESTree.node) : option string :=
  let prop :=
    match node with
    | Some n =>
        match syntax n with
        | Property key _ | MethodDefinition key _ => Some key
        | MemberExpression _ property _ => Some property
        | _ => None
        end
    | None => None
    end in
  let computed :=
    match node with
    | Some n =>
        match syntax n with
        | Property _ c | MethodDefinition _ c | MemberExpression _ _ c => c
        | _ => false
        end
    | None => false
    end in
  match prop with
  | Some p =>
      match syntax p with
      | Literal value => Some (JS.String_of value)
      | TemplateLiteral quasis expressions =>
          if Nat.eqb (length expressions) 0 && Nat.eqb (length quasis) 1 then
            match quasis with
            | q :: _ => Some (cooked q)
            | [] => None
            end
          else None
      | Identifier name =>
          if negb computed then Some name else None
      | _ => None
      end
  | None => None
  end.

(** [getVariableByName(initScope, name)]: the loop follows [upper] until a
    scope's [set] has the name. *)
Fixpoint getVariableByName (initScope : Scope) (name : string)
  : option ScopeVariable :=
  match set initScope !! name with
  | Some variable => Some variable
  | None =>
      match upper initScope with
      | Some scope => getVariableByName scope name
      | None => None
      end
  end.

(** ** The rule (index.js, lines 12-130) *)

(** [meta.messages]. *)
Definition messages : gmap string string :=
  {[ "unexpected" := "Unexpected sails.{{propertyName}}" ]}.

Section create.

(** [create(context)] reads the options once; the functions below close
    over [allowed]. *)
Variable context : Context.

(** The constant [options] of [create]. *)
Definition create_options : RuleOptions :=
  match options context with
  | first :: _ => first                    (* context.options[0] *)
  | [] => {| allow := None |}              (* || {} *)
  end.

Definition allowed : list string :=
  match allow create_options with
  | Some names => names                    (* options.allow *)
  | None => []                             (* || [] *)
  end.

(** [id && id.name === "sails"]; the identifier of a reference is never
    null. *)
Definition isSails (reference : Reference) : bool :=
  let id := identifier reference in
  match name id with
  | Some n => String.eqb n "sails"
  | None => false
  end.

(** [propertyName && allowed.indexOf(propertyName) !== -1]. *)
Definition isAllowed (node : ESTree.node) : JS.value :=
  match getStaticPropertyName (Some node) with
  | None => JS.Null
  | Some propertyName =>
      if JS.truthy (JS.Str propertyName)
      then JS.Boolean (negb (JS.indexOf allowed propertyName =? -1)%Z)
      else JS.Str propertyName
  end.

Definition isMemberAccessExceptAllowed (reference : Reference) : bool :=
  let node := identifier reference in
  let parent := parent node in
  match syntax parent with
  | MemberExpression object _ _ =>
      same_node object node && negb (JS.truthy (isAllowed parent))
  | _ => false
  end.

(** [report(reference)], on the context as it is when the report is
    made. *)
Definition report (current : Context) (reference : Reference) : Context :=
  let node := parent (identifier reference) in
  let propertyName := getStaticPropertyName (Some node) in
  context_report current
    {| node := node;
       diagnostic_loc := loc node;
       messageId := "unexpected";
       propertyName := propertyName |}.

(** The ["Program:exit"] listener, run on the context as the host holds
    it when the traversal leaves the program. *)
Definition Program_exit (current : Context) : Context :=
  let scope := getScope current in
  let consoleVar := getVariableByName scope "sails" in
  let shadowed :=
    match consoleVar with
    | Some v => negb (Nat.eqb (length (defs v)) 0)
    | None => false
    end in
  let references :=
    match consoleVar with
    | Some v => references v
    | None => List.filter isSails (through scope)
    end in
  if negb shadowed then
    fold_left report (List.filter isMemberAccessExceptAllowed references) current
  else current.

End create.

(** One analysis of a program: the host creates the rule on its context and
    fires the listener at the end of the traversal. *)
Definition analyse (context : Context) : Context :=
  Program_exit context context.

(** The diagnostics of an analysis that starts with none reported. *)
Definition diagnostics (opts : list RuleOptions) (scope : Scope) : list Diagnostic :=
  reports (analyse {| options := opts; getScope := scope; reports := [] |}).

(** ** The configuration schema (index.js, lines 21-36)

    [meta.schema] is data; the host validates the configured options
    against it before [create] runs.  The schema is transcribed below and
    read with the meaning JSON Schema gives to the keywords it uses
    ([type], [properties], [additionalProperties], [items], [minItems],
    [maxItems], [uniqueItems]). *)

Module JSON.

Inductive json : Type :=
| JNull
| JBoolean (b : bool)
| JNumber (x : JS.number)
| JString (s : string)
| JArray (elements : list json)
| JObject (members : list (string * json)).

(** The first member with the given key. *)
Fixpoint member (key : string) (members : list (string * json)) : option json :=
  match members with
  | [] => None
  | (k, v) :: rest => if String.eqb k key then Some v else member key rest
  end.

(** Equality of numbers by value: the two zeros are equal. *)
Definition number_eqb (x y : JS.number) : bool :=
  match x, y with
  | JS.Zero _, JS.Zero _ => true
  | JS.Infinity a, JS.Infinity b => Bool.eqb a b
  | JS.Finite a s e, JS.Finite b t f =>
      Bool.eqb a b && Pos.eqb s t && Z.eqb e f
  | _, _ => false
  end.

(** Equality of JSON values, as [uniqueItems] compares them: arrays by
    position, objects by key. *)
Fixpoint json_eqb (a b : json) {struct a} : bool :=
  match a, b with
  | JNull, JNull => true
  | JBoolean x, JBoolean y => Bool.eqb x y
  | JNumber x, JNumber y => number_eqb x y
  | JString x, JString y => String.eqb x y
  | JArray xs, JArray ys =>
      (fix elements_eqb (xs ys : list json) : bool :=
         match xs, ys with
         | [], [] => true
         | x :: xs', y :: ys' => json_eqb x y && elements_eqb xs' ys'
         | _, _ => false
         end) xs ys
  | JObject ms, JObject ns =>
      Nat.eqb (length ms) (length ns) &&
      (fix members_eqb (ms : list (string * json)) : bool :=
         match ms with
         | [] => true
         | (k, v) :: ms' =>
             match member k ns with
             | Some w => json_eqb v w
             | None => false
             end && members_eqb ms'
         end) ms
  | _, _ => false
  end.

Fixpoint unique (elements : list json) : bool :=
  match elements with
  | [] => true
  | x :: rest => negb (existsb (json_eqb x) rest) && unique rest
  end.

Inductive json_type : Type :=
| TNull | TBoolean | TNumber | TString | TArray | TObject.

Definition type_of (j : json) : json_type :=
  match j with
  | JNull => TNull
  | JBoolean _ => TBoolean
  | JNumber _ => TNumber
  | JString _ => TString
  | JArray _ => TArray
  | JObject _ => TObject
  end.

Definition json_type_eqb (a b : json_type) : bool :=
  match a, b with
  | TNull, TNull | TBoolean, TBoolean | TNumber, TNumber
  | TString, TString | TArray, TArray | TObject, TObject => true
  | _, _ => false
  end.

(** [items] is one schema for every element or a tuple of schemas by
    position. *)
Inductive items_of (S : Type) : Type :=
| AllItems (s : S)
| TupleItems (ss : list S).
Arguments AllItems {S} s.
Arguments TupleItems {S} ss.

(** A schema: each keyword is absent ([None], or the keyword's default) or
    present. *)
Inductive schema : Type := mkSchema {
  type : option json_type;
  properties : list (string * schema);
  additionalProperties : bool;
  items : option (items_of schema);
  minItems : option nat;
  maxItems : option nat;
  uniqueItems : bool
}.

Fixpoint property_schema (key : string) (props : list (string * schema))
  : option schema :=
  match props with
  | [] => None
  | (k, s) :: rest => if String.eqb k key then Some s else property_schema key rest
  end.

(** Validation: every keyword of the schema holds of the value; a keyword
    for objects holds of every value that is not an object, and likewise
    for arrays. *)
Fixpoint validate (s : schema) (j : json) {struct j} : bool :=
  match type s with
  | Some t => json_type_eqb t (type_of j)
  | None => true
  end &&
  match j with
  | JObject members =>
      (fix validate_members (ms : list (string * json)) : bool :=
         match ms with
         | [] => true
         | (k, v) :: ms' =>
             match property_schema k (properties s) with
             | Some sub => validate sub v
             | None => additionalProperties s
             end && validate_members ms'
         end) members
  | JArray elements =>
      match items s with
      | None => true
      | Some (AllItems sub) =>
          (fix validate_all (es : list json) : bool :=
             match es with
             | [] => true
             | e :: es' => validate sub e && validate_all es'
             end) elements
      | Some (TupleItems subs) =>
          (fix validate_tuple (es : list json) (ss : list schema) : bool :=
             match es, ss with
             | e :: es', sub :: ss' => validate sub e && validate_tuple es' ss'
             | _, _ => true
             end) elements subs
      end &&
      match minItems s with
      | Some least => Nat.leb least (length elements)
      | None => true
      end &&
      match maxItems s with
      | Some most => Nat.leb (length elements) most
      | None => true
      end &&
      (if uniqueItems s then unique elements else true)
  | _ => true
  end.

End JSON.

Import JSON.

(** [meta.schema], from the inside out: the items of [allow], the property
    [allow], and the schemas of the options by position. *)
Definition allow_items : schema :=
  {| type := Some TString;
     properties := []; additionalProperties := true; items := None;
     minItems := None; maxItems := None; uniqueItems := false |}.

Definition allow_schema : schema :=
  {| type := Some TArray;
     items := Some (AllItems allow_items);
     minItems := Some 1;
     uniqueItems := true;
     properties := []; additionalProperties := true; maxItems := None |}.

Definition meta_schema : list schema :=
  [ {| type := Some TObject;
       properties := [ ("allow", allow_schema) ];
       additionalProperties := false;
       items := None; minItems := None; maxItems := None;
       uniqueItems := false |} ].

(** The host reads a schema given as an array as the schema of the array of
    options: [{ type: "array", items: schema, minItems: 0,
    maxItems: schema.length }]. *)
Definition options_schema (positional : list schema) : schema :=
  {| type := Some TArray;
     properties := [];
     additionalProperties := true;
     items := Some (TupleItems positional);
     minItems := Some 0;
     maxItems := Some (length positional);
     uniqueItems := false |}.

(** The configured options are accepted. *)
Definition accepts (configured : list json) : bool :=
  validate (options_schema meta_schema) (JArray configured).

(** The options as [create] reads them: [options.allow] of an object. *)
Definition string_of_json (j : json) : option string :=
  match j with
  | JString s => Some s
  | _ => None
  end.

Definition RuleOptions_of_json (j : json) : option RuleOptions :=
  match j with
  | JObject members =>
      match member "allow" members with
      | None => Some {| allow := None |}
      | Some (JArray elements) =>
          match mapM string_of_json elements with
          | Some names => Some {| allow := Some names |}
          | None => None
          end
      | Some _ => None
      end
  | _ => None
  end.

Definition options_of_json (configured : list json) : option (list RuleOptions) :=
  mapM RuleOptions_of_json configured.

(** ** Reading the listener *)

(** [shadowed] of the listener: a variable named [sails] is found from the
    scope upwards and has a definition. *)
Definition shadowed (scope : Scope) : bool :=
  match getVariableByName scope "sails" with
  | Some v => negb (Nat.eqb (length (defs v)) 0)
  | None => false
  end.

(** [references] of the listener. *)
Definition restricted_references (scope : Scope) : list Reference :=
  match getVariableByName scope "sails" with
  | Some v => references v
  | None => List.filter isSails (through scope)
  end.

(** The diagnostic [report] hands to [context.report]. *)
Definition violation (reference : Reference) : Diagnostic :=
  let node := parent (identifier reference) in
  {| node := node;
     diagnostic_loc := loc node;
     messageId := "unexpected";
     propertyName := getStaticPropertyName (Some node) |}.

(** What [references.filter(isMemberAccessExceptAllowed).forEach(report)]
    reports for a list of references, on a context with nothing reported. *)
Definition reported (context : Context) (refs : list Reference) : list Diagnostic :=
  reports
    (fold_left report
       (List.filter (isMemberAccessExceptAllowed context) refs)
       {| options := options context; getScope := getScope context; reports := [] |}).

(** A member access [object.property] or [object[property]] as a node. *)
Definition is_member_access_on (parent : ESTree.node) (object : ESTree.node) : Prop :=
  exists o property computed,
    syntax parent = MemberExpression o property computed /\ uid o = uid object.

(** The key [getStaticPropertyName] selects from a node, and [node.computed]
    of the three kinds of node that have a key. *)
Definition key_of (n : ESTree.node) : option ESTree.node :=
  match syntax n with
  | Property key _ | MethodDefinition key _ => Some key
  | MemberExpression _ property _ => Some property
  | _ => None
  end.

Definition computed_of (n : ESTree.node) : bool :=
  match syntax n with
  | Property _ c | MethodDefinition _ c | MemberExpression _ _ c => c
  | _ => false
  end.

(** The keys with a static name: a literal, a template of one segment and
    no expression, an identifier that is not computed. *)
Definition static_key (key : ESTree.node) (computed : bool) : bool :=
  match syntax key with
  | Literal _ => true
  | TemplateLiteral quasis expressions =>
      Nat.eqb (length expressions) 0 && Nat.eqb (length quasis) 1
  | Identifier _ => negb computed
  | _ => false
  end.

(** ** The statements of the specification that the code does not meet *)

(** The configuration the specification describes: at most one object,
    whose only property is [allow], an array of unique, non-empty
    strings. *)
Definition nonempty_string (j : json) : bool :=
  match j with
  | JString s => negb (String.eqb s "")
  | _ => false
  end.

Definition allow_as_stated (j : json) : bool :=
  match j with
  | JArray elements => forallb nonempty_string elements && unique elements
  | _ => false
  end.

Definition object_as_stated (j : json) : bool :=
  match j with
  | JObject members =>
      forallb (fun m => String.eqb (fst m) "allow" && allow_as_stated (snd m)) members
  | _ => false
  end.

Definition accepts_as_stated (configured : list json) : bool :=
  match configured with
  | [] => true
  | [o] => object_as_stated o
  | _ => false
  end.

(** The payload the specification describes: the extracted name, or a
    rendering of the node when there is none. *)
Definition propertyName_as_stated (render : ESTree.node -> string)
    (reference : Reference) : option string :=
  let node := parent (identifier reference) in
  match getStaticPropertyName (Some node) with
  | Some name => Some name
  | None => Some (render node)
  end.

(** ** Programs *)

Definition span (first last : nat) : SourceLocation :=
  {| start := {| line := 1; column := first |};
     finish := {| line := 1; column := last |} |}.

(** The reference to [sails] in [sails.key] or [sails[key]]: the identifier
    is node 1, the key node 2, the member access node 3. *)
Definition sails_node : ESTree.node := Node 1 (span 0 5) (Identifier "sails").

Definition access_node (key : node_syntax) (computed : bool) : ESTree.node :=
  Node 3 (span 0 12)
    (MemberExpression sails_node (Node 2 (span 6 11) key) computed).

Definition access (key : node_syntax) (computed : bool) : Reference :=
  {| identifier := {| self := sails_node; parent := access_node key computed |} |}.

(** A script whose references to [sails] are all unresolved. *)
Definition script (unresolved : list Reference) : Scope :=
  {| set := ∅; through := unresolved; upper := None |}.

(** [import sails from "sails"] at the top of a module: the module scope
    declares [sails]. *)
Definition module_importing_sails (uses : list Reference) : Scope :=
  {| set :=
       {[ "sails" :=
            {| variable_name := "sails";
               defs := [ {| def_type := "ImportBinding";
                            def_name := Node 9 (span 7 12) (Identifier "sails") |} ];
               references := uses |} ]};
     through := [];
     upper := Some (script []) |}.

(** The host's record of the global [sails] when it is configured as a
    global: a variable with no definition. *)
Definition script_with_global (uses : list Reference) : Scope :=
  {| set :=
       {[ "sails" :=
            {| variable_name := "sails"; defs := []; references := uses |} ]};
     through := [];
     upper := None |}.

(** [function f(sails) { sails.hook(); }]: the global scope declares [f];
    the reference to [sails] resolves to the parameter in the scope of the
    function and does not reach [through]. *)
Definition function_with_parameter_sails : Scope :=
  {| set :=
       {[ "f" :=
            {| variable_name := "f";
               defs := [ {| def_type := "FunctionName";
                            def_name := Node 8 (span 9 10) (Identifier "f") |} ];
               references := [] |} ]};
     through := [];
     upper := None |}.

Definition configured (opts : list RuleOptions) (scope : Scope) : Context :=
  {| options := opts; getScope := scope; reports := [] |}.

(** [sails.hook], [sails[""]], an empty template as the key, [sails[key]],
    a template [b] as the key, [sails[100]] (the value of the literal is
    [1 * 10^2]), [sails["100"]]. *)
Definition sails_hook : Reference := access (Identifier "hook") false.
Definition sails_empty : Reference := access (Literal (JS.StringValue "")) true.
Definition sails_empty_template : Reference :=
  access (TemplateLiteral [ {| cooked := ""; raw := "" |} ] []) true.
Definition sails_key : Reference := access (Identifier "key") true.
Definition sails_template_b : Reference :=
  access (TemplateLiteral [ {| cooked := "b"; raw := "b" |} ] []) true.
Definition sails_100 : Reference :=
  access (Literal (JS.NumberValue (JS.Finite false 1 2))) true.
Definition sails_100_string : Reference :=
  access (Literal (JS.StringValue "100")) true.

(** ** The scope chain and programs that differ in one place *)

(** The scopes [getVariableByName] visits from a scope: the scope itself,
    then its [upper] scopes, innermost first. *)
Fixpoint ancestors (scope : Scope) : list Scope :=
  scope ::
  match upper scope with
  | Some enclosing => ancestors enclosing
  | None => []
  end.

(** The same scope with other unresolved references, and the same context
    on another scope. *)
Definition with_through (scope : Scope) (unresolved : list Reference) : Scope :=
  {| set := set scope; through := unresolved; upper := upper scope |}.

Definition in_scope (context : Context) (scope : Scope) : Context :=
  {| options := options context; getScope := scope; reports := reports context |}.

(** [hooks[sails]]: the reference to [sails] is the key of the member
    access, whose object is another node. *)
Definition sails_as_key : Reference :=
  {| identifier :=
       {| self := Node 2 (span 6 11) (Identifier "sails");
          parent :=
            Node 3 (span 0 12)
              (MemberExpression (Node 1 (span 0 5) (Identifier "hooks"))
                 (Node 2 (span 6 11) (Identifier "sails")) true) |} |}.

(** [console.log]: a member access on another unresolved name. *)
Definition console_log : Reference :=
  {| identifier :=
       {| self := Node 4 (span 0 7) (Identifier "console");
          parent :=
            Node 6 (span 0 11)
              (MemberExpression (Node 4 (span 0 7) (Identifier "console"))
                 (Node 5 (span 8 11) (Identifier "log")) false) |} |}.

(** A scope that declares nothing, inside a script that has the global
    [sails]. *)
Definition block_in_script_with_global (uses : list Reference) : Scope :=
  {| set := ∅; through := []; upper := Some (script_with_global uses) |}.

(** * Properties *)

(** ** Number::toString on integers *)

Lemma strip_zeros_spec d0 e0 d e :
  JS.strip_zeros d0 e0 = (d, e) ->
  exists k : nat,
    e = (e0 + Z.of_nat k)%Z /\ d0 = Nat.iter k D0 d /\ forall x, d <> D0 x.
Proof.
  revert e0; induction d0; intros e0 H; simpl in H;
    try (injection H as <- <-; exists 0%nat; split; [lia|split; [done|congruence]]).
  destruct (IHd0 _ H) as (k & -> & -> & Hd).
  exists (S k). split; [lia|]. split; [done|done].
Qed.

Lemma to_list_iter_D0 k d :
  to_list (Nat.iter k D0 d) = repeat d0 k ++ to_list d.
Proof. induction k; simpl; [done|]. by rewrite IHk. Qed.

Lemma rev_repeat {A} (x : A) k : List.rev (repeat x k) = repeat x k.
Proof.
  induction k; simpl; [done|]. rewrite IHk.
  clear IHk. induction k; simpl; [done|]. by rewrite IHk.
Qed.

Lemma rev_iter_D0 k d :
  Decimal.rev (Nat.iter k D0 d) = Decimal.app (Decimal.rev d) (Nat.iter k D0 Nil).
Proof.
  apply to_list_inj.
  rewrite rev_spec, app_spec, rev_spec, !to_list_iter_D0, rev_app_distr, rev_repeat.
  simpl. by rewrite app_nil_r.
Qed.

Lemma string_of_uint_app a b :
  NilEmpty.string_of_uint (Decimal.app a b) =
  NilEmpty.string_of_uint a +:+ NilEmpty.string_of_uint b.
Proof.
  induction a; simpl;
    [ by rewrite DecimalFacts.app_nil_l | .. ];
    match goal with
    | |- context [Decimal.app (?D a) b] =>
        replace (Decimal.app (D a) b) with (D (Decimal.app a b))
          by (apply to_list_inj; simpl; rewrite !app_spec; done)
    end; simpl; by rewrite IHa.
Qed.

Lemma string_of_uint_zeros k :
  NilEmpty.string_of_uint (Nat.iter k D0 Nil) = JS.zeros k.
Proof. induction k; simpl; [done|]. by rewrite IHk. Qed.

Lemma length_append (a b : string) :
  String.length (a +:+ b) = (String.length a + String.length b)%nat.
Proof. induction a; simpl; [done|]. by rewrite IHa. Qed.

Lemma length_zeros k : String.length (JS.zeros k) = k.
Proof. induction k; simpl; [done|]. by rewrite IHk. Qed.

(** A normalised sequence of digits that is not zero starts with a digit
    that is not zero. *)
Lemma unorm_fixed_head u x : unorm u = u -> u = D0 x -> u = zero.
Proof.
  intros Hn ->. rewrite unorm_D0 in Hn.
  destruct x as [| | | | | | | | | |]; [done|..];
    match goal with
    | _ : unorm ?y = _ |- _ => assert (Hx : y <> Nil) by done;
                               pose proof (nb_digits_unorm y Hx) as Hle
    end; rewrite Hn in Hle; simpl in Hle; lia.
Qed.

Lemma to_uint_normal p : unorm (Pos.to_uint p) = Pos.to_uint p.
Proof.
  rewrite <- (DecimalPos.Unsigned.to_of (Pos.to_uint p)).
  by rewrite DecimalPos.Unsigned.of_to.
Qed.

Lemma strip_zeros_to_uint p d e :
  JS.strip_zeros (Pos.to_little_uint p) 0 = (d, e) ->
  exists (k : nat) (s : positive),
    e = Z.of_nat k /\ DecimalPos.Unsigned.of_lu d = Npos s /\
    JS.digits p = JS.digits s +:+ JS.zeros k.
Proof.
  intros H. destruct (strip_zeros_spec _ _ _ _ H) as (k & -> & Hlu & Hd).
  assert (Hp : Pos.to_uint p = Decimal.app (Decimal.rev d) (Nat.iter k D0 Nil)).
  { unfold Pos.to_uint. by rewrite Hlu, rev_iter_D0. }
  assert (Hhead : forall x, Decimal.rev d <> D0 x).
  { intros x Hx.
    assert (Hp' : Pos.to_uint p = D0 (Decimal.app x (Nat.iter k D0 Nil))).
    { rewrite Hp, Hx. apply to_list_inj. simpl. by rewrite !app_spec. }
    apply (DecimalPos.Unsigned.to_uint_nonzero p).
    eapply unorm_fixed_head; [apply to_uint_normal | exact Hp']. }
  assert (Hnil : Decimal.rev d <> Nil).
  { intros Hx. rewrite Hx, DecimalFacts.app_nil_l in Hp.
    pose proof (to_uint_normal p) as Hn. rewrite Hp in Hn.
    rewrite unorm_iter_D0 in Hn. simpl in Hn.
    apply (DecimalPos.Unsigned.to_uint_nonzero p). by rewrite Hp, <- Hn. }
  assert (Hnorm : unorm (Decimal.rev d) = Decimal.rev d).
  { destruct (Decimal.rev d) eqn:E; try done. by destruct (Hhead u). }
  pose proof (DecimalPos.Unsigned.to_of (Decimal.rev d)) as Hto.
  rewrite DecimalPos.Unsigned.of_lu_rev, Hnorm in Hto.
  destruct (DecimalPos.Unsigned.of_lu d) as [|s] eqn:Es.
  { simpl in Hto. symmetry in Hto. by destruct (Hhead Nil). }
  exists k, s. split; [lia|]. split; [done|].
  unfold JS.digits. simpl in Hto. rewrite Hto, Hp.
  by rewrite string_of_uint_app, string_of_uint_zeros.
Qed.

Example number_of_N_100 :
  JS.number_of_N 100 = Some (JS.Finite false 1 2).
Proof. reflexivity. Qed.

Example number_of_N_beyond :
  JS.number_of_N (2 ^ 53) = None /\ JS.number_of_N (2 ^ 60) = None.
Proof. split; reflexivity. Qed.

Example Number_toString_100 :
  JS.Number_toString (JS.Finite false 1 2) = "100".
Proof. reflexivity. Qed.

Example Number_toString_1e21 :
  JS.Number_toString (JS.Finite false 1 21) = "1e+21".
Proof. reflexivity. Qed.

Example Number_toString_half :
  JS.Number_toString (JS.Finite false 5 (-1)) = "0.5".
Proof. reflexivity. Qed.

Example Number_toString_1_25 :
  JS.Number_toString (JS.Finite false 125 (-2)) = "1.25".
Proof. reflexivity. Qed.

Example Number_toString_small :
  JS.Number_toString (JS.Finite false 15 (-8)) = "1.5e-7".
Proof. reflexivity. Qed.

Example Number_toString_micro :
  JS.Number_toString (JS.Finite false 1 (-6)) = "0.000001".
Proof. reflexivity. Qed.

(** ** The listener, reference by reference *)

Lemma Program_exit_unfold context current :
  Program_exit context current =
  if negb (shadowed (getScope current)) then
    fold_left report
      (List.filter (isMemberAccessExceptAllowed context)
         (restricted_references (getScope current))) current
  else current.
Proof. reflexivity. Qed.

Lemma fold_report_reports refs current :
  reports (fold_left report refs current) =
  reports current ++ map violation refs.
Proof.
  revert current; induction refs as [|r refs IH]; intros current; simpl.
  - by rewrite app_nil_r.
  - rewrite IH. simpl. by rewrite <- app_assoc.
Qed.

Lemma fold_report_options refs current :
  options (fold_left report refs current) = options current.
Proof.
  revert current; induction refs as [|r refs IH]; intros current; simpl; [done|].
  by rewrite IH.
Qed.

Lemma fold_report_getScope refs current :
  getScope (fold_left report refs current) = getScope current.
Proof.
  revert current; induction refs as [|r refs IH]; intros current; simpl; [done|].
  by rewrite IH.
Qed.

Lemma reported_eq context refs :
  reported context refs =
  map violation (List.filter (isMemberAccessExceptAllowed context) refs).
Proof. unfold reported. by rewrite fold_report_reports. Qed.

Lemma reported_app context before after :
  reported context (before ++ after) =
  reported context before ++ reported context after.
Proof. by rewrite !reported_eq, List.filter_app, map_app. Qed.

Lemma reported_cons context r refs :
  reported context (r :: refs) =
  (if isMemberAccessExceptAllowed context r then [violation r] else []) ++
  reported context refs.
Proof.
  rewrite !reported_eq. simpl.
  by destruct (isMemberAccessExceptAllowed context r).
Qed.

Lemma analyse_reports context :
  reports (analyse context) =
  reports context ++
  (if shadowed (getScope context) then []
   else reported context (restricted_references (getScope context))).
Proof.
  unfold analyse. rewrite Program_exit_unfold.
  destruct (shadowed (getScope context)); simpl.
  - by rewrite app_nil_r.
  - by rewrite fold_report_reports, reported_eq.
Qed.

Lemma analyse_at context before r after :
  shadowed (getScope context) = false ->
  restricted_references (getScope context) = before ++ r :: after ->
  reports (analyse context) =
  reports context ++ reported context before ++
  (if isMemberAccessExceptAllowed context r then [violation r] else []) ++
  reported context after.
Proof.
  intros Hs Hr. rewrite analyse_reports, Hs, Hr.
  by rewrite reported_app, reported_cons.
Qed.

Lemma isMemberAccessExceptAllowed_on context r :
  is_member_access_on (parent (identifier r)) (identifier r) ->
  isMemberAccessExceptAllowed context r =
  negb (JS.truthy (isAllowed context (parent (identifier r)))).
Proof.
  intros (o & p & c & Hp & Hu). unfold isMemberAccessExceptAllowed.
  rewrite Hp. unfold same_node. rewrite Hu, Nat.eqb_refl. done.
Qed.

Lemma of_uint_acc_bound (d : uint) (acc : positive) :
  (Z.pos acc * 10 ^ Z.of_nat (nb_digits d) <= Z.pos (Pos.of_uint_acc d acc))%Z.
Proof.
  revert acc. induction d; intros acc; cbn [nb_digits Pos.of_uint_acc];
    [ change (Z.of_nat 0) with 0%Z; lia | .. ];
    rewrite Nat2Z.inj_succ, Z.pow_succ_r by lia;
    match goal with
    | |- context [Pos.of_uint_acc d ?a] => specialize (IHd a)
    end; nia.
Qed.

Lemma length_string_of_uint (d : uint) :
  String.length (NilEmpty.string_of_uint d) = nb_digits d.
Proof. induction d; simpl; congruence. Qed.

(** A positive integer below [10^21] has at most 21 digits. *)
Lemma length_digits (p : positive) :
  (Z.pos p < 10 ^ 21)%Z -> (String.length (JS.digits p) <= 21)%nat.
Proof.
  intros Hp. unfold JS.digits. rewrite length_string_of_uint.
  pose proof (DecimalPos.Unsigned.of_to p) as Hof.
  pose proof (to_uint_normal p) as Hnorm.
  pose proof (DecimalPos.Unsigned.to_uint_nonzero p) as Hnz.
  destruct (Pos.to_uint p) as [|l|l|l|l|l|l|l|l|l|l] eqn:E;
    [ done
    | destruct Hnz; by apply (unorm_fixed_head _ l Hnorm)
    | .. ];
    cbn [Pos.of_uint] in Hof; injection Hof as Hof;
    match type of Hof with
    | Pos.of_uint_acc l ?k = p => pose proof (of_uint_acc_bound l k) as Hb
    end;
    rewrite Hof in Hb; cbn [nb_digits];
    (assert (Hlt : (10 ^ Z.of_nat (nb_digits l) < 10 ^ 21)%Z) by nia);
    apply Z.pow_lt_mono_r_iff in Hlt; lia.
Qed.

(** The integers below [2^53] are rendered as their digits. *)
Lemma Number_toString_integer (v : N) (x : JS.number) :
  JS.number_of_N v = Some x ->
  JS.Number_toString x = JS.decimal v.
Proof.
  unfold JS.number_of_N. destruct (N.ltb_spec v (2 ^ 53)) as [Hv|Hv]; [|done].
  destruct v as [|p]; [by intros [= <-]|].
  destruct (JS.strip_zeros (Pos.to_little_uint p) 0) as [d e] eqn:Hstrip.
  destruct (strip_zeros_to_uint _ _ _ Hstrip) as (k & s & -> & -> & Hp).
  intros [= <-].
  assert (Hlen : (String.length (JS.digits p) <= 21)%nat).
  { apply length_digits.
    assert (Hz : (Z.of_N (N.pos p) < Z.of_N (2 ^ 53))%Z) by lia.
    change (Z.of_N (2 ^ 53)) with 9007199254740992%Z in Hz.
    change (10 ^ 21)%Z with 1000000000000000000000%Z. lia. }
  rewrite Hp, length_append, length_zeros in Hlen.
  cbn [JS.decimal]. rewrite Hp. unfold JS.Number_toString.
  set (len := String.length (JS.digits s)) in *.
  replace ((Z.of_nat len <=? Z.of_nat k + Z.of_nat len)%Z) with true
    by (symmetry; apply Z.leb_le; lia).
  replace ((Z.of_nat k + Z.of_nat len <=? 21)%Z) with true
    by (symmetry; apply Z.leb_le; lia).
  replace (Z.to_nat (Z.of_nat k + Z.of_nat len - Z.of_nat len)) with k by lia.
  reflexivity.
Qed.

(** [number_of_N] is defined exactly on the integers below [2^53]. *)
Lemma number_of_N_defined (v : N) :
  is_Some (JS.number_of_N v) <-> (v < 2 ^ 53)%N.
Proof.
  unfold JS.number_of_N. destruct (N.ltb_spec v (2 ^ 53)) as [Hv|Hv].
  - split; [done|]. intros _. destruct v as [|p]; [by eexists|].
    destruct (JS.strip_zeros (Pos.to_little_uint p) 0) as [d e] eqn:Hstrip.
    destruct (strip_zeros_to_uint _ _ _ Hstrip) as (k & s & _ & -> & _).
    by eexists.
  - split; [by intros [? ?]|lia].
Qed.

(** ** The property-name extractor *)

(** The examples of the function's own documentation, on [a] for the
    object: [a.b], [a["b"]], a template [b], [a[100]], [a[b]],
    [a["a" + "b"]], a tagged template, a template with an expression; and
    the same keys in an object literal. *)
Example documented_member_names :
  let a := Node 10 (span 0 1) (Identifier "a") in
  let b := Node 11 (span 2 3) (Identifier "b") in
  let member key computed := Some (Node 12 (span 0 9) (MemberExpression a key computed)) in
  let key syntax := Node 13 (span 2 8) syntax in
  getStaticPropertyName (member b false) = Some "b" /\
  getStaticPropertyName (member (key (Literal (JS.StringValue "b"))) true) = Some "b" /\
  getStaticPropertyName
    (member (key (TemplateLiteral [ {| cooked := "b"; raw := "b" |} ] [])) true)
    = Some "b" /\
  getStaticPropertyName
    (member (key (Literal (JS.NumberValue (JS.Finite false 1 2)))) true) = Some "100" /\
  getStaticPropertyName (member b true) = None /\
  getStaticPropertyName (member (key (Other BinaryExpression)) true) = None /\
  getStaticPropertyName (member (key (Other TaggedTemplateExpression)) true) = None /\
  getStaticPropertyName
    (member (key (TemplateLiteral [ {| cooked := ""; raw := "" |};
                                    {| cooked := ""; raw := "" |} ] [b])) true)
    = None.
Proof. repeat split. Qed.

Example documented_property_names :
  let b := Node 11 (span 2 3) (Identifier "b") in
  let property key computed := Some (Node 12 (span 0 9) (Property key computed)) in
  let key syntax := Node 13 (span 2 8) syntax in
  getStaticPropertyName (property b false) = Some "b" /\
  getStaticPropertyName (property (key (Literal (JS.StringValue "b"))) true) = Some "b" /\
  getStaticPropertyName
    (property (key (Literal (JS.NumberValue (JS.Finite false 1 2)))) true) = Some "100" /\
  getStaticPropertyName (property b true) = None /\
  getStaticPropertyName (property (key (Other BinaryExpression)) true) = None /\
  getStaticPropertyName None = None /\
  getStaticPropertyName (Some b) = None.
Proof. repeat split. Qed.

Lemma getStaticPropertyName_key (n key : ESTree.node) :
  key_of n = Some key ->
  getStaticPropertyName (Some n) =
  match syntax key with
  | Literal value => Some (JS.String_of value)
  | TemplateLiteral quasis expressions =>
      match expressions, quasis with
      | [], [q] => Some (cooked q)
      | _, _ => None
      end
  | Identifier name => if computed_of n then None else Some name
  | _ => None
  end.
Proof.
  unfold key_of, computed_of, getStaticPropertyName.
  destruct (syntax n) as [| | | o p c | k c | k c |]; intros [= <-]; try done;
    (destruct (syntax _) as [| | qs es | | | |]; try done;
     [ by destruct c
     | destruct es as [|? ?]; try done; destruct qs as [|? [|? ?]]; done ]).
Qed.

Lemma getStaticPropertyName_no_key (n : ESTree.node) :
  key_of n = None -> getStaticPropertyName (Some n) = None.
Proof.
  unfold key_of, getStaticPropertyName.
  by destruct (syntax n).
Qed.

Lemma static_key_determinate (n key : ESTree.node) :
  key_of n = Some key ->
  static_key key (computed_of n) = false <-> getStaticPropertyName (Some n) = None.
Proof.
  intros Hk. rewrite (getStaticPropertyName_key _ _ Hk). unfold static_key.
  destruct (syntax key) as [| | qs es | | | |]; try done.
  - by destruct (computed_of n).
  - destruct es as [|? ?]; [|done]. destruct qs as [|? [|? ?]]; done.
Qed.

(** C4: a literal key is named by [String(value)]; the value of a numeric
    literal that is an integer below [2^53] becomes its decimal digits; and
    a key written as that string is the same to [isAllowed], so that
    [sails[100]] and [sails["100"]] match the allow-list alike. *)
Theorem literal_key_is_coerced
    (context : Context) (n1 n2 k1 k2 : ESTree.node) (value : JS.literal_value) :
  key_of n1 = Some k1 ->
  syntax k1 = Literal value ->
  key_of n2 = Some k2 ->
  syntax k2 = Literal (JS.StringValue (JS.String_of value)) ->
  getStaticPropertyName (Some n1) = Some (JS.String_of value) /\
  getStaticPropertyName (Some n2) = getStaticPropertyName (Some n1) /\
  isAllowed context n1 = isAllowed context n2 /\
  (forall (v : N) (x : JS.number),
     JS.number_of_N v = Some x ->
     value = JS.NumberValue x ->
     JS.String_of value = JS.decimal v).
Proof.
  intros Hk1 Hs1 Hk2 Hs2.
  assert (H1 : getStaticPropertyName (Some n1) = Some (JS.String_of value))
    by (by rewrite (getStaticPropertyName_key _ _ Hk1), Hs1).
  assert (H2 : getStaticPropertyName (Some n2) = Some (JS.String_of value))
    by (by rewrite (getStaticPropertyName_key _ _ Hk2), Hs2).
  repeat split; try congruence.
  - unfold isAllowed. by rewrite H1, H2.
  - intros v x Hx ->. by apply Number_toString_integer.
Qed.

Lemma literal_key_is_coerced_witness :
  getStaticPropertyName (Some (parent (identifier sails_100))) = Some "100" /\
  getStaticPropertyName (Some (parent (identifier sails_100_string))) = Some "100" /\
  isAllowed (configured [ {| allow := Some ["100"] |} ] (script []))
    (parent (identifier sails_100)) = JS.Boolean true /\
  isAllowed (configured [ {| allow := Some ["100"] |} ] (script []))
    (parent (identifier sails_100_string)) = JS.Boolean true /\
  JS.String_of (JS.NumberValue (JS.Finite false 1 2)) = JS.decimal 100.
Proof.
  destruct (literal_key_is_coerced
              (configured [ {| allow := Some ["100"] |} ] (script []))
              (parent (identifier sails_100))
              (parent (identifier sails_100_string))
              (Node 2 (span 6 11) (Literal (JS.NumberValue (JS.Finite false 1 2))))
              (Node 2 (span 6 11) (Literal (JS.StringValue "100")))
              (JS.NumberValue (JS.Finite false 1 2))
              eq_refl eq_refl eq_refl eq_refl) as (H1 & H2 & H3 & H4).
  split; [exact H1|]. split; [by rewrite H2|].
  split; [reflexivity|]. split; [rewrite <- H3; reflexivity|].
  apply (H4 100%N (JS.Finite false 1 2)); reflexivity.
Defined.

(** C5: for a template string used as a key (of a member access, a property
    or a method definition), the extractor returns the cooked value of the
    segment exactly when the template has no embedded expression and one
    segment, and is indeterminate for every other template. *)
Theorem template_key_single_segment (n key : ESTree.node) quasis expressions :
  key_of n = Some key ->
  syntax key = TemplateLiteral quasis expressions ->
  (forall q, expressions = [] /\ quasis = [q] ->
     getStaticPropertyName (Some n) = Some (cooked q)) /\
  ((expressions <> [] \/ length quasis <> 1) ->
     getStaticPropertyName (Some n) = None) /\
  (forall name, getStaticPropertyName (Some n) = Some name ->
     expressions = [] /\ exists q, quasis = [q] /\ name = cooked q).
Proof.
  intros Hk Hs. rewrite (getStaticPropertyName_key _ _ Hk), Hs.
  split; [|split].
  - by intros q [-> ->].
  - intros [He|Hq].
    + by destruct expressions.
    + destruct expressions; [|done]. by destruct quasis as [|? [|? ?]].
  - intros name. destruct expressions; [|done].
    destruct quasis as [|q [|? ?]]; try done.
    intros [= <-]. eauto.
Qed.

Lemma template_key_single_segment_witness :
  getStaticPropertyName (Some (parent (identifier sails_template_b))) = Some "b".
Proof.
  apply (proj1 (template_key_single_segment
                  (parent (identifier sails_template_b))
                  (Node 2 (span 6 11)
                     (TemplateLiteral [ {| cooked := "b"; raw := "b" |} ] []))
                  [ {| cooked := "b"; raw := "b" |} ] [] eq_refl eq_refl)
               {| cooked := "b"; raw := "b" |}).
  split; reflexivity.
Defined.

(** C6: for an identifier used as a key, the extractor returns the
    identifier's name if and only if the access is not computed; a computed
    identifier key is indeterminate. *)
Theorem identifier_key_unless_computed (n key : ESTree.node) (id : string) :
  key_of n = Some key ->
  syntax key = Identifier id ->
  (computed_of n = false -> getStaticPropertyName (Some n) = Some id) /\
  (computed_of n = true -> getStaticPropertyName (Some n) = None) /\
  (getStaticPropertyName (Some n) = Some id <-> computed_of n = false).
Proof.
  intros Hk Hs. rewrite (getStaticPropertyName_key _ _ Hk), Hs.
  destruct (computed_of n); repeat split; done.
Qed.

Lemma identifier_key_unless_computed_witness :
  getStaticPropertyName (Some (parent (identifier sails_hook))) = Some "hook" /\
  getStaticPropertyName (Some (parent (identifier sails_key))) = None.
Proof.
  split.
  - apply (identifier_key_unless_computed
             (parent (identifier sails_hook))
             (Node 2 (span 6 11) (Identifier "hook")) "hook" eq_refl eq_refl).
    reflexivity.
  - apply (identifier_key_unless_computed
             (parent (identifier sails_key))
             (Node 2 (span 6 11) (Identifier "key")) "key" eq_refl eq_refl).
    reflexivity.
Defined.

(** ** Shadowing *)

(** C1: when a variable named [sails] is found from the scope of the
    program upwards and has one or more definitions, the analysis reports
    nothing, for any reference and whatever the allow-list holds: the
    context is left as it was. *)
Theorem shadowing_suppresses_reporting (context : Context) (v : ScopeVariable) :
  getVariableByName (getScope context) "sails" = Some v ->
  defs v <> [] ->
  analyse context = context /\ reports (analyse context) = reports context.
Proof.
  intros Hv Hd.
  assert (H : analyse context = context); [|by rewrite H].
  unfold analyse, Program_exit. rewrite Hv.
  by destruct (defs v).
Qed.

Lemma shadowing_suppresses_reporting_witness :
  reports (analyse (configured [] (module_importing_sails [sails_hook]))) = [].
Proof.
  apply (shadowing_suppresses_reporting
           (configured [] (module_importing_sails [sails_hook]))
           {| variable_name := "sails";
              defs := [ {| def_type := "ImportBinding";
                           def_name := Node 9 (span 7 12) (Identifier "sails") |} ];
              references := [sails_hook] |}).
  - vm_compute. reflexivity.
  - discriminate.
Defined.

(** ** Determinism *)

(** C8: the diagnostics an analysis adds are a function of the options and
    the scope graph alone: they do not depend on what the context had
    reported before, the analysis changes neither the options nor the scope
    graph, and so a second analysis of the same input adds the same
    diagnostics in the same order. *)
Theorem analysis_is_deterministic (context : Context) :
  reports (analyse context) =
    reports context ++ diagnostics (options context) (getScope context) /\
  options (analyse context) = options context /\
  getScope (analyse context) = getScope context /\
  reports (analyse (analyse context)) =
    reports context ++ diagnostics (options context) (getScope context)
                    ++ diagnostics (options context) (getScope context).
Proof.
  assert (Hr : forall c, reports (analyse c) =
                         reports c ++ diagnostics (options c) (getScope c)).
  { intros c. unfold diagnostics. rewrite !analyse_reports. simpl.
    destruct (shadowed (getScope c)); [done|]. by rewrite !reported_eq. }
  assert (Ho : options (analyse context) = options context).
  { unfold analyse. rewrite Program_exit_unfold.
    destruct (negb _); [apply fold_report_options | done]. }
  assert (Hs : getScope (analyse context) = getScope context).
  { unfold analyse. rewrite Program_exit_unfold.
    destruct (negb _); [apply fold_report_getScope | done]. }
  repeat split; try done.
  by rewrite (Hr (analyse context)), Ho, Hs, Hr, <- app_assoc.
Qed.

(** ** One reference at a time *)

(** C3: a reference to [sails] that is not shadowed and is the object of a
    member access whose key has no static name (it is not a literal, not a
    template of one segment, not an identifier that is not computed) is
    reported, with no property name, whatever the allow-list holds. *)
Theorem indeterminate_name_is_reported
    (context : Context) (before after : list Reference) (r : Reference)
    (object key : ESTree.node) (computed : bool) :
  shadowed (getScope context) = false ->
  restricted_references (getScope context) = before ++ r :: after ->
  syntax (parent (identifier r)) = MemberExpression object key computed ->
  uid object = uid (identifier r) ->
  static_key key computed = false ->
  isMemberAccessExceptAllowed context r = true /\
  reports (analyse context) =
    reports context ++ reported context before ++
    [ {| node := parent (identifier r);
         diagnostic_loc := loc (parent (identifier r));
         messageId := "unexpected";
         propertyName := None |} ] ++
    reported context after.
Proof.
  intros Hs Hr Hp Hu Hk.
  assert (Hkey : key_of (parent (identifier r)) = Some key)
    by (unfold key_of; by rewrite Hp).
  assert (Hc : computed_of (parent (identifier r)) = computed)
    by (unfold computed_of; by rewrite Hp).
  rewrite <- Hc in Hk. apply (static_key_determinate _ _ Hkey) in Hk.
  assert (Hm : isMemberAccessExceptAllowed context r = true).
  { rewrite isMemberAccessExceptAllowed_on by (do 3 eexists; eauto).
    unfold isAllowed. by rewrite Hk. }
  split; [done|].
  rewrite (analyse_at _ _ _ _ Hs Hr), Hm. unfold violation. by rewrite Hk.
Qed.

Lemma indeterminate_name_is_reported_witness :
  reports (analyse (configured [ {| allow := Some ["key"] |} ] (script [sails_key]))) =
  [ {| node := access_node (Identifier "key") true;
       diagnostic_loc := span 0 12;
       messageId := "unexpected";
       propertyName := None |} ].
Proof.
  apply (indeterminate_name_is_reported
           (configured [ {| allow := Some ["key"] |} ] (script [sails_key]))
           [] [] sails_key sails_node (Node 2 (span 6 11) (Identifier "key")) true);
    reflexivity.
Defined.

(** C10: a reference to [sails] that is not shadowed and is the object of a
    member access whose static name is the empty string is reported, also
    when the empty string is in the allow-list: [isAllowed] returns the
    empty name itself, which is falsy, and the allow-list is not
    consulted. *)
Theorem empty_name_is_reported
    (context : Context) (before after : list Reference) (r : Reference) :
  shadowed (getScope context) = false ->
  restricted_references (getScope context) = before ++ r :: after ->
  is_member_access_on (parent (identifier r)) (identifier r) ->
  getStaticPropertyName (Some (parent (identifier r))) = Some "" ->
  isAllowed context (parent (identifier r)) = JS.Str "" /\
  isMemberAccessExceptAllowed context r = true /\
  reports (analyse context) =
    reports context ++ reported context before ++
    [ {| node := parent (identifier r);
         diagnostic_loc := loc (parent (identifier r));
         messageId := "unexpected";
         propertyName := Some "" |} ] ++
    reported context after.
Proof.
  intros Hs Hr Hp Hn.
  assert (Ha : isAllowed context (parent (identifier r)) = JS.Str "")
    by (unfold isAllowed; by rewrite Hn).
  assert (Hm : isMemberAccessExceptAllowed context r = true)
    by (rewrite isMemberAccessExceptAllowed_on by done; by rewrite Ha).
  repeat split; try done.
  rewrite (analyse_at _ _ _ _ Hs Hr), Hm. unfold violation. by rewrite Hn.
Qed.

Lemma empty_name_is_reported_witness :
  allowed (configured [ {| allow := Some [""] |} ] (script [sails_empty])) = [""] /\
  reports (analyse (configured [ {| allow := Some [""] |} ] (script [sails_empty]))) =
  [ {| node := access_node (Literal (JS.StringValue "")) true;
       diagnostic_loc := span 0 12;
       messageId := "unexpected";
       propertyName := Some "" |} ].
Proof.
  split; [reflexivity|].
  apply (empty_name_is_reported
           (configured [ {| allow := Some [""] |} ] (script [sails_empty]))
           [] [] sails_empty); try reflexivity.
  exists sails_node, (Node 2 (span 6 11) (Literal (JS.StringValue ""))), true.
  split; reflexivity.
Defined.

Example empty_template_has_empty_name :
  getStaticPropertyName (Some (parent (identifier sails_empty_template))) = Some "".
Proof. reflexivity. Qed.

Lemma indexOf_range (names : list string) (name : string) :
  (-1 <= JS.indexOf names name)%Z.
Proof.
  induction names as [|n names IH]; simpl; [lia|].
  destruct (String.eqb n name); [lia|].
  destruct (Z.eqb_spec (JS.indexOf names name) (-1)); lia.
Qed.

Lemma indexOf_found (names : list string) (name : string) :
  negb (JS.indexOf names name =? -1)%Z = true <-> In name names.
Proof.
  rewrite negb_true_iff, Z.eqb_neq.
  induction names as [|n names IH]; simpl; [split; [lia|done]|].
  destruct (String.eqb_spec n name) as [->|Hne].
  - split; [by left|lia].
  - pose proof (indexOf_range names name).
    destruct (Z.eqb_spec (JS.indexOf names name) (-1)) as [E|E].
    + split; [lia|]. intros [?|Hin]; [done|]. apply IH in Hin. lia.
    + split; [|lia]. intros _. right. by apply IH.
Qed.

(** A reference that is the object of a member access with a static name
    that is not empty is reported once, with that name, when the name is
    not in the allow-list, and is not reported when it is. *)
Lemma static_name_reported_unless_allowed
    (context : Context) (before after : list Reference) (r : Reference)
    (X : string) :
  shadowed (getScope context) = false ->
  restricted_references (getScope context) = before ++ r :: after ->
  is_member_access_on (parent (identifier r)) (identifier r) ->
  getStaticPropertyName (Some (parent (identifier r))) = Some X ->
  X <> "" ->
  (In X (allowed context) ->
   reports (analyse context) =
     reports context ++ reported context before ++ reported context after) /\
  (~ In X (allowed context) ->
   reports (analyse context) =
     reports context ++ reported context before ++
     [ {| node := parent (identifier r);
          diagnostic_loc := loc (parent (identifier r));
          messageId := "unexpected";
          propertyName := Some X |} ] ++
     reported context after).
Proof.
  intros Hs Hr Hp Hn HX.
  rewrite (analyse_at _ _ _ _ Hs Hr).
  rewrite isMemberAccessExceptAllowed_on by done.
  unfold isAllowed, violation. rewrite Hn. simpl.
  destruct (String.eqb_spec X "") as [|_]; [done|]. simpl.
  pose proof (indexOf_found (allowed context) X) as Hin.
  destruct (negb (JS.indexOf (allowed context) X =? -1)%Z); simpl; split; try done.
  - intros Hno. destruct Hno. by apply Hin.
  - intros Hyes. by apply Hin in Hyes.
Qed.

(** C2, at [sails[""]] with the options [{ allow: [""] }]: the name of the
    access is the empty string, the empty string is in the allow-list, and
    the access is reported all the same. *)
Theorem allowed_empty_name_is_reported :
  let context := configured [ {| allow := Some [""] |} ] (script [sails_empty]) in
  getStaticPropertyName (Some (parent (identifier sails_empty))) = Some "" /\
  In "" (allowed context) /\
  reports (analyse context) =
  [ {| node := access_node (Literal (JS.StringValue "")) true;
       diagnostic_loc := span 0 12;
       messageId := "unexpected";
       propertyName := Some "" |} ].
Proof. simpl. split; [reflexivity|]. split; [by left | reflexivity]. Qed.

(** Scenarios A and B of the specification. *)
Example scenario_A :
  reports (analyse (configured [] (script [sails_hook]))) =
  [ {| node := access_node (Identifier "hook") false;
       diagnostic_loc := span 0 12;
       messageId := "unexpected";
       propertyName := Some "hook" |} ].
Proof. reflexivity. Qed.

Example scenario_B :
  reports (analyse (configured [ {| allow := Some ["config"] |} ]
                      (script [access (Identifier "config") false]))) = [].
Proof. reflexivity. Qed.

Example scenario_C :
  reports (analyse (configured [] function_with_parameter_sails)) = [].
Proof. vm_compute. reflexivity. Qed.

Example scenario_D :
  map propertyName (reports (analyse (configured [] (script [sails_key])))) = [None].
Proof. reflexivity. Qed.

Example global_sails_is_reported :
  reports (analyse (configured [] (script_with_global [sails_hook]))) =
  [ {| node := access_node (Identifier "hook") false;
       diagnostic_loc := span 0 12;
       messageId := "unexpected";
       propertyName := Some "hook" |} ].
Proof. vm_compute. reflexivity. Qed.

(** C9, as the code has it: a reference flagged as a violation, when the
    binding is not shadowed, gets one diagnostic, on the member access that
    is its parent, at the location of that node, with the message
    [unexpected], whose template is [Unexpected sails.{{propertyName}}];
    the payload [propertyName] is the extracted name, and null when the
    name is indeterminate. *)
Theorem violation_is_reported_once
    (context : Context) (before after : list Reference) (r : Reference) :
  shadowed (getScope context) = false ->
  restricted_references (getScope context) = before ++ r :: after ->
  isMemberAccessExceptAllowed context r = true ->
  is_member_access_on (parent (identifier r)) (identifier r) /\
  messages !! "unexpected" = Some "Unexpected sails.{{propertyName}}" /\
  reports (analyse context) =
    reports context ++ reported context before ++
    [ {| node := parent (identifier r);
         diagnostic_loc := loc (parent (identifier r));
         messageId := "unexpected";
         propertyName := getStaticPropertyName (Some (parent (identifier r))) |} ] ++
    reported context after.
Proof.
  intros Hs Hr Hm. split; [|split].
  - unfold isMemberAccessExceptAllowed in Hm.
    destruct (syntax (parent (identifier r))) as [| | | o p c | | |] eqn:E; try done.
    apply andb_true_iff in Hm as [Hu _]. apply Nat.eqb_eq in Hu.
    by exists o, p, c.
  - vm_compute. reflexivity.
  - by rewrite (analyse_at _ _ _ _ Hs Hr), Hm.
Qed.

Lemma violation_is_reported_once_witness :
  reports (analyse (configured [] (script [sails_hook]))) =
  [ {| node := access_node (Identifier "hook") false;
       diagnostic_loc := span 0 12;
       messageId := "unexpected";
       propertyName := Some "hook" |} ].
Proof.
  apply (violation_is_reported_once
           (configured [] (script [sails_hook])) [] [] sails_hook);
    reflexivity.
Defined.

(** C9, as stated, fails at [sails[key]]: the payload of the diagnostic is
    null, and so is not the rendering of the node, whatever rendering is
    taken. *)
Lemma indeterminate_payload_is_null :
  map propertyName (reports (analyse (configured [] (script [sails_key])))) = [None] /\
  forall render : ESTree.node -> string,
    map propertyName (reports (analyse (configured [] (script [sails_key]))))
    <> [propertyName_as_stated render sails_key].
Proof. split; [reflexivity|]. intros render. simpl. discriminate. Qed.

(** ** The configuration schema *)

Lemma validate_array (s : schema) (elements : list json) :
  validate s (JArray elements) =
  match type s with
  | Some t => json_type_eqb t TArray
  | None => true
  end &&
  (match items s with
   | None => true
   | Some (AllItems sub) => forallb (validate sub) elements
   | Some (TupleItems subs) =>
       forallb (fun p => validate (snd p) (fst p)) (combine elements subs)
   end &&
   match minItems s with
   | Some least => Nat.leb least (length elements)
   | None => true
   end &&
   match maxItems s with
   | Some most => Nat.leb (length elements) most
   | None => true
   end &&
   (if uniqueItems s then unique elements else true)).
Proof.
  simpl. f_equal. f_equal. f_equal. f_equal.
  destruct (items s) as [[sub|subs]|]; [| |done].
  - induction elements as [|e es IH]; simpl; [done|]. by rewrite IH.
  - revert subs. induction elements as [|e es IH]; intros [|sub subs]; simpl; try done.
    by rewrite IH.
Qed.

Lemma validate_object (s : schema) (members : list (string * json)) :
  validate s (JObject members) =
  match type s with
  | Some t => json_type_eqb t TObject
  | None => true
  end &&
  forallb (fun m =>
             match property_schema (fst m) (properties s) with
             | Some sub => validate sub (snd m)
             | None => additionalProperties s
             end) members.
Proof.
  simpl. f_equal.
  induction members as [|[k v] ms IH]; simpl; [done|]. by rewrite IH.
Qed.

Lemma validate_allow_items (j : json) :
  validate allow_items j = true <-> exists s, j = JString s.
Proof.
  destruct j; simpl; split; try done; try (by intros [? ?]); eauto.
Qed.

Lemma all_strings (elements : list json) :
  forallb (validate allow_items) elements = true <->
  exists names, elements = map JString names.
Proof.
  induction elements as [|e es IH]; simpl.
  - split; [by exists []|done].
  - rewrite andb_true_iff, IH, validate_allow_items. split.
    + intros [[s ->] [names ->]]. by exists (s :: names).
    + intros [[|s names] [= -> ->]]. eauto.
Qed.

Lemma existsb_json_string (a : string) (names : list string) :
  existsb (json_eqb (JString a)) (map JString names) = true <-> a ∈ names.
Proof.
  induction names as [|b names IH].
  - simpl. split; [done|]. by intros ?%elem_of_nil.
  - change (existsb (json_eqb (JString a)) (map JString (b :: names)))
      with (String.eqb a b || existsb (json_eqb (JString a)) (map JString names)).
    by rewrite orb_true_iff, String.eqb_eq, IH, elem_of_cons.
Qed.

Lemma unique_strings (names : list string) :
  unique (map JString names) = true <-> NoDup names.
Proof.
  induction names as [|a names IH].
  - simpl. split; [constructor|done].
  - change (unique (map JString (a :: names)))
      with (negb (existsb (json_eqb (JString a)) (map JString names)) &&
            unique (map JString names)).
    rewrite andb_true_iff, negb_true_iff, IH, NoDup_cons.
    by rewrite <- not_true_iff_false, existsb_json_string.
Qed.

(** The values the schema of [allow] accepts: the arrays of one or more
    strings, no two equal. *)
Lemma validate_allow_schema (j : json) :
  validate allow_schema j = true <->
  exists names, j = JArray (map JString names) /\ names <> [] /\ NoDup names.
Proof.
  destruct j as [| | | |elements|]; try (split; [done|by intros (? & ? & _)]).
  rewrite validate_array. simpl.
  rewrite !andb_true_iff, all_strings. split.
  - intros [[[[names ->] Hmin] _] Hu]. exists names.
    split; [done|]. split.
    + intros ->. done.
    + by apply unique_strings.
  - intros (names & [= ->] & Hne & Hnd). repeat split.
    + by exists names.
    + destruct names; done.
    + by apply unique_strings.
Qed.

Lemma member_In (key : string) (members : list (string * json)) (v : json) :
  member key members = Some v -> In (key, v) members.
Proof.
  induction members as [|[k w] ms IH]; simpl; [done|].
  destruct (String.eqb k key) eqn:E.
  - apply String.eqb_eq in E. intros [= ->]. left. by subst.
  - intros H. right. by apply IH.
Qed.

Lemma mapM_string_of_json (names : list string) :
  mapM string_of_json (map JString names) = Some names.
Proof. induction names as [|a names IH]; simpl; [done|]. by rewrite IH. Qed.

(** The objects the schema of the first option accepts. *)
Lemma validate_options_object (members : list (string * json)) :
  forallb (fun p => validate (snd p) (fst p)) (combine [JObject members] meta_schema)
  = true <->
  forall k v, In (k, v) members ->
    k = "allow" /\
    exists names, v = JArray (map JString names) /\ names <> [] /\ NoDup names.
Proof.
  cbn [combine meta_schema forallb fst snd]. rewrite andb_true_r, validate_object.
  cbn [type properties additionalProperties json_type_eqb andb].
  rewrite forallb_forall. split.
  - intros H k v Hin. specialize (H _ Hin). cbn [fst snd property_schema] in H.
    destruct (String.eqb "allow" k) eqn:E; [|done].
    apply String.eqb_eq in E. split; [done|]. by apply validate_allow_schema.
  - intros H [k v] Hin. destruct (H _ _ Hin) as [-> Hv].
    cbn [fst snd property_schema]. rewrite String.eqb_refl.
    by apply validate_allow_schema.
Qed.

(** C7, as the code has it: the options are accepted when they are an array
    of at most one element, an object with no property but [allow], which
    is an array of one or more strings, no two equal (a string may be
    empty, the array may not); accepted options are the options [create]
    reads; with no options, or no [allow], the allow-list is empty. *)
Theorem configuration_schema (configured : list json) (scope : Scope)
    (prior : list Diagnostic) :
  (accepts configured = true <->
   configured = [] \/
   exists members, configured = [JObject members] /\
     forall k v, In (k, v) members ->
       k = "allow" /\
       exists names, v = JArray (map JString names) /\ names <> [] /\ NoDup names) /\
  (accepts configured = true ->
   exists opts, options_of_json configured = Some opts) /\
  allowed {| options := []; getScope := scope; reports := prior |} = [] /\
  allowed {| options := [ {| allow := None |} ]; getScope := scope; reports := prior |}
  = [].
Proof.
  assert (Hiff : accepts configured = true <->
   configured = [] \/
   exists members, configured = [JObject members] /\
     forall k v, In (k, v) members ->
       k = "allow" /\
       exists names, v = JArray (map JString names) /\ names <> [] /\ NoDup names).
  { unfold accepts. rewrite validate_array.
    cbn [options_schema type items minItems maxItems uniqueItems json_type_eqb andb
         Nat.leb].
    destruct configured as [|o [|o' rest]].
    - split; [by left|done].
    - destruct o as [| | | | |members];
        try (split; [done | by intros [?|(? & [= ?] & _)]]).
      change (length [JObject members] <=? length meta_schema)%nat with true.
      rewrite !andb_true_r, validate_options_object. split.
      + intros H. right. by exists members.
      + by intros [?|(? & [= <-] & H)].
    - split.
      + by rewrite !andb_false_r.
      + by intros [?|(? & [= ?] & _)]. }
  split; [done|]. split; [|done].
  intros [->|(members & -> & H)]%Hiff; [by exists []|].
  unfold options_of_json. simpl.
  destruct (member "allow" members) as [v|] eqn:E; [|eauto].
  apply member_In, H in E as [_ (names & -> & _)].
  rewrite mapM_string_of_json. eauto.
Qed.

Lemma configuration_schema_witness :
  accepts [ JObject [ ("allow", JArray [ JString "config"; JString "log" ]) ] ] = true.
Proof.
  apply (proj1 (configuration_schema
                  [ JObject [ ("allow", JArray [ JString "config"; JString "log" ]) ] ]
                  (script []) [])).
  right. eexists. split; [reflexivity|].
  intros k v [[= <- <-]|[]]. split; [reflexivity|].
  exists ["config"; "log"]. split; [reflexivity|]. split; [discriminate|].
  apply NoDup_cons. split; [|apply NoDup_singleton].
  intros [= ]%list_elem_of_singleton.
Defined.

(** C7, as stated, fails on both sides: the empty string is accepted in
    [allow], and the empty array is not. *)
Lemma empty_string_accepted_empty_array_rejected :
  (accepts [ JObject [ ("allow", JArray [ JString "" ]) ] ] = true /\
   accepts_as_stated [ JObject [ ("allow", JArray [ JString "" ]) ] ] = false) /\
  (accepts [ JObject [ ("allow", JArray []) ] ] = false /\
   accepts_as_stated [ JObject [ ("allow", JArray []) ] ] = true).
Proof. repeat split; reflexivity. Qed.

(** * Further properties of the code *)

(** ** [getVariableByName] on the scope chain *)

(** Induction along [upper]. *)
Lemma Scope_chain_ind (P : Scope -> Prop) :
  (forall s, upper s = None -> P s) ->
  (forall s enclosing, upper s = Some enclosing -> P enclosing -> P s) ->
  forall s, P s.
Proof.
  intros Hlast Hstep. fix IH 1. intros [declared unresolved [enclosing|]].
  - apply (Hstep (mkScope declared unresolved (Some enclosing)) enclosing);
      [reflexivity | apply IH].
  - by apply Hlast.
Qed.

Lemma getVariableByName_unfold (scope : Scope) (name : string) :
  getVariableByName scope name =
  match set scope !! name with
  | Some variable => Some variable
  | None =>
      match upper scope with
      | Some enclosing => getVariableByName enclosing name
      | None => None
      end
  end.
Proof. by destruct scope. Qed.

Lemma ancestors_unfold (scope : Scope) :
  ancestors scope =
  scope :: match upper scope with
           | Some enclosing => ancestors enclosing
           | None => []
           end.
Proof. by destruct scope. Qed.

(** X1: [getVariableByName] returns the variable of the nearest scope that
    declares the name: it returns [v] exactly when some scope of the chain
    maps the name to [v] and no scope inside it has the name. *)
Theorem getVariableByName_nearest (scope : Scope) (name : string) (v : ScopeVariable) :
  getVariableByName scope name = Some v <->
  exists inner declaring outer,
    ancestors scope = inner ++ declaring :: outer /\
    Forall (fun s => set s !! name = None) inner /\
    set declaring !! name = Some v.
Proof.
  induction scope as [s Hup|s enclosing Hup IH] using Scope_chain_ind;
    rewrite getVariableByName_unfold, ancestors_unfold, Hup.
  - split.
    + destruct (set s !! name) as [w|] eqn:E; [|done]. intros [= ->].
      exists [], s, []. by repeat split.
    + intros (inner & declaring & outer & Hc & Hin & Hd).
      destruct inner as [|i inner].
      * injection Hc as <- _. by rewrite Hd.
      * injection Hc as _ Hc. by destruct inner.
  - split.
    + destruct (set s !! name) as [w|] eqn:E.
      * intros [= ->]. exists [], s, (ancestors enclosing). by repeat split.
      * intros (inner & declaring & outer & Hc & Hin & Hd)%IH.
        exists (s :: inner), declaring, outer. rewrite Hc.
        repeat split; [|done]. by constructor.
    + intros (inner & declaring & outer & Hc & Hin & Hd).
      destruct inner as [|i inner].
      * injection Hc as <- _. by rewrite Hd.
      * injection Hc as <- Hc. apply Forall_cons in Hin as [Hs Hin].
        rewrite Hs. apply IH. by exists inner, declaring, outer.
Qed.

Lemma getVariableByName_nearest_witness :
  getVariableByName (block_in_script_with_global [sails_hook]) "sails" =
  Some {| variable_name := "sails"; defs := []; references := [sails_hook] |}.
Proof.
  apply (proj2 (getVariableByName_nearest
                  (block_in_script_with_global [sails_hook]) "sails"
                  {| variable_name := "sails"; defs := [];
                     references := [sails_hook] |})).
  exists [block_in_script_with_global [sails_hook]],
         (script_with_global [sails_hook]), [].
  split; [reflexivity|]. split.
  - constructor; [vm_compute; reflexivity | constructor].
  - vm_compute. reflexivity.
Defined.

(** X2: [getVariableByName] returns null exactly when no scope of the chain
    has the name. *)
Theorem getVariableByName_null (scope : Scope) (name : string) :
  getVariableByName scope name = None <->
  Forall (fun s => set s !! name = None) (ancestors scope).
Proof.
  induction scope as [s Hup|s enclosing Hup IH] using Scope_chain_ind;
    rewrite getVariableByName_unfold, ancestors_unfold, Hup.
  - destruct (set s !! name) as [w|] eqn:E.
    + split; [done|]. intros [Hs _]%Forall_cons. congruence.
    + split; [|done]. intros _. by repeat constructor.
  - destruct (set s !! name) as [w|] eqn:E.
    + split; [done|]. intros [Hs _]%Forall_cons. congruence.
    + rewrite IH. split.
      * intros H. by constructor.
      * by intros [_ H]%Forall_cons.
Qed.

Lemma getVariableByName_null_witness :
  getVariableByName function_with_parameter_sails "sails" = None.
Proof.
  apply (proj2 (getVariableByName_null function_with_parameter_sails "sails")).
  constructor; [vm_compute; reflexivity | constructor].
Defined.

(** ** Which references are reported *)

Lemma allowed_options (c1 c2 : Context) :
  options c1 = options c2 -> allowed c1 = allowed c2.
Proof. unfold allowed, create_options. by intros ->. Qed.

Lemma isMemberAccessExceptAllowed_options (c1 c2 : Context) (r : Reference) :
  options c1 = options c2 ->
  isMemberAccessExceptAllowed c1 r = isMemberAccessExceptAllowed c2 r.
Proof.
  intros H. unfold isMemberAccessExceptAllowed, isAllowed.
  by rewrite (allowed_options _ _ H).
Qed.

Lemma reported_options (c1 c2 : Context) (refs : list Reference) :
  options c1 = options c2 -> reported c1 refs = reported c2 refs.
Proof.
  intros H. rewrite !reported_eq. f_equal.
  apply List.filter_ext. intros r. by apply isMemberAccessExceptAllowed_options.
Qed.

Lemma getVariableByName_with_through (scope : Scope) (refs : list Reference)
    (name : string) :
  getVariableByName (with_through scope refs) name = getVariableByName scope name.
Proof. by rewrite (getVariableByName_unfold scope), getVariableByName_unfold. Qed.

Lemma member_access_of_violation (context : Context) (r : Reference) :
  isMemberAccessExceptAllowed context r = true ->
  is_member_access_on (parent (identifier r)) (identifier r).
Proof.
  unfold isMemberAccessExceptAllowed. intros Hm.
  destruct (syntax (parent (identifier r))) as [| | | o p c | | |] eqn:E; try done.
  apply andb_true_iff in Hm as [Hu _]. apply Nat.eqb_eq in Hu.
  by exists o, p, c.
Qed.

(** X3: when [sails] is declared nowhere in the scope chain, an unresolved
    reference to another name is not analysed: the diagnostics are those of
    the program without it. *)
Theorem other_names_are_ignored
    (context : Context) (before after : list Reference) (r : Reference) :
  getVariableByName (getScope context) "sails" = None ->
  through (getScope context) = before ++ r :: after ->
  name (identifier r) <> Some "sails" ->
  reports (analyse context) =
  reports (analyse (in_scope context (with_through (getScope context) (before ++ after)))).
Proof.
  intros Hv Ht Hn. rewrite !analyse_reports.
  unfold shadowed, restricted_references. cbn [in_scope getScope reports].
  rewrite getVariableByName_with_through, Hv, Ht. cbn [with_through through].
  assert (Hr : isSails r = false).
  { unfold isSails. destruct (name (identifier r)) as [n|]; [|done].
    apply String.eqb_neq. congruence. }
  rewrite !List.filter_app. cbn [List.filter]. rewrite Hr.
  f_equal. by apply reported_options.
Qed.

Lemma other_names_are_ignored_witness :
  reports (analyse (configured [] (script [console_log; sails_hook]))) =
  reports (analyse (configured [] (script [sails_hook]))).
Proof.
  apply (other_names_are_ignored
           (configured [] (script [console_log; sails_hook]))
           [] [sails_hook] console_log).
  - vm_compute. reflexivity.
  - reflexivity.
  - discriminate.
Defined.

(** X4: a reference to [sails] that is not the object of a member access
    (a bare use, or the key of somebody else's access) is never reported,
    whatever the allow-list holds. *)
Theorem only_objects_are_reported
    (context : Context) (before after : list Reference) (r : Reference) :
  shadowed (getScope context) = false ->
  restricted_references (getScope context) = before ++ r :: after ->
  ~ is_member_access_on (parent (identifier r)) (identifier r) ->
  isMemberAccessExceptAllowed context r = false /\
  reports (analyse context) =
    reports context ++ reported context before ++ reported context after.
Proof.
  intros Hs Hr Hno.
  assert (Hm : isMemberAccessExceptAllowed context r = false).
  { destruct (isMemberAccessExceptAllowed context r) eqn:E; [|done].
    by apply member_access_of_violation in E. }
  split; [done|]. by rewrite (analyse_at _ _ _ _ Hs Hr), Hm.
Qed.

Lemma only_objects_are_reported_witness :
  reports (analyse (configured [] (script [sails_as_key]))) = [].
Proof.
  apply (only_objects_are_reported
           (configured [] (script [sails_as_key])) [] [] sails_as_key).
  - reflexivity.
  - reflexivity.
  - intros (o & p & c & [= <- _ _] & Hu). discriminate.
Defined.

(** X5: the analysis reports nothing but violations: every diagnostic it
    adds is that of a reference among those analysed which is flagged, sits
    on the member access whose object the reference is, at that node's
    location, with the message [unexpected] (which [meta.messages] has) and
    the extracted name; and the binding is not shadowed. *)
Theorem every_diagnostic_is_a_violation (context : Context) (d : Diagnostic) :
  In d (reports (analyse context)) ->
  In d (reports context) \/
  exists r,
    shadowed (getScope context) = false /\
    In r (restricted_references (getScope context)) /\
    isMemberAccessExceptAllowed context r = true /\
    is_member_access_on (node d) (identifier r) /\
    node d = parent (identifier r) /\
    diagnostic_loc d = loc (node d) /\
    messageId d = "unexpected" /\
    is_Some (messages !! messageId d) /\
    propertyName d = getStaticPropertyName (Some (node d)).
Proof.
  rewrite analyse_reports, in_app_iff. intros [Hold|Hnew]; [by left|right].
  destruct (shadowed (getScope context)); [done|].
  rewrite reported_eq, in_map_iff in Hnew. destruct Hnew as (r & <- & Hin).
  apply filter_In in Hin as [Hin Hm]. exists r.
  repeat split; try done.
  by apply (member_access_of_violation context).
Qed.

Lemma every_diagnostic_is_a_violation_witness :
  exists r,
    In r (restricted_references (script [console_log; sails_hook])) /\
    parent (identifier r) = access_node (Identifier "hook") false.
Proof.
  destruct (every_diagnostic_is_a_violation
              (configured [] (script [console_log; sails_hook]))
              {| node := access_node (Identifier "hook") false;
                 diagnostic_loc := span 0 12;
                 messageId := "unexpected";
                 propertyName := Some "hook" |})
    as [[]|(r & _ & Hin & _ & _ & Hn & _)].
  - left. reflexivity.
  - exists r. split; [exact Hin | symmetry; exact Hn].
Defined.

Lemma flagged_iff (context : Context) (r : Reference) :
  isMemberAccessExceptAllowed context r = true <->
  is_member_access_on (parent (identifier r)) (identifier r) /\
  forall X, getStaticPropertyName (Some (parent (identifier r))) = Some X ->
            X = "" \/ ~ In X (allowed context).
Proof.
  split.
  - intros Hm. pose proof (member_access_of_violation _ _ Hm) as Ha.
    split; [done|]. intros X HX.
    rewrite isMemberAccessExceptAllowed_on in Hm by done.
    unfold isAllowed in Hm. rewrite HX in Hm. simpl in Hm.
    destruct (String.eqb_spec X "") as [|_]; [by left|right]. simpl in Hm.
    intros Hin%indexOf_found. rewrite Hin in Hm. done.
  - intros [Ha HX]. rewrite isMemberAccessExceptAllowed_on by done.
    unfold isAllowed.
    destruct (getStaticPropertyName (Some (parent (identifier r)))) as [X|]; [|done].
    cbn [JS.truthy]. destruct (String.eqb_spec X "") as [->|Hne]; [done|].
    cbn [negb JS.truthy]. destruct (HX X eq_refl) as [|Hno]; [done|].
    destruct (negb (JS.indexOf (allowed context) X =? -1)%Z) eqn:E; [|done].
    by apply indexOf_found in E.
Qed.

(** X6: a reference is flagged exactly when it is the object of a member
    access and the static name of the access, if it has one, is empty or
    not in the allow-list. *)
Theorem violation_iff (context : Context) (r : Reference) :
  isMemberAccessExceptAllowed context r = true <->
  is_member_access_on (parent (identifier r)) (identifier r) /\
  forall X, getStaticPropertyName (Some (parent (identifier r))) = Some X ->
            X = "" \/ ~ In X (allowed context).
Proof. exact (flagged_iff context r). Qed.

Lemma violation_iff_witness :
  isMemberAccessExceptAllowed
    (configured [ {| allow := Some ["config"] |} ] (script [sails_hook])) sails_hook
  = true.
Proof.
  apply (proj2 (violation_iff
                  (configured [ {| allow := Some ["config"] |} ] (script [sails_hook]))
                  sails_hook)).
  split.
  - exists sails_node, (Node 2 (span 6 11) (Identifier "hook")), false.
    split; reflexivity.
  - intros X [= <-]. right. intros [[= ]|[]].
Defined.

(** ** The allow-list as a set *)

Lemma filter_sublist_impl {A : Type} (P Q : A -> bool) (l : list A) :
  (forall x, P x = true -> Q x = true) ->
  sublist (List.filter P l) (List.filter Q l).
Proof.
  intros Himp. induction l as [|x l IH]; simpl; [constructor|].
  destruct (P x) eqn:EP.
  - rewrite (Himp _ EP). by constructor.
  - destruct (Q x); [by constructor|done].
Qed.

Lemma map_sublist {A B : Type} (f : A -> B) (l1 l2 : list A) :
  sublist l1 l2 -> sublist (map f l1) (map f l2).
Proof. induction 1; simpl; by constructor. Qed.

Lemma diagnostics_eq (opts : list RuleOptions) (scope : Scope) :
  diagnostics opts scope =
  if shadowed scope then []
  else map violation
         (List.filter (isMemberAccessExceptAllowed (configured opts scope))
            (restricted_references scope)).
Proof.
  unfold diagnostics. change {| options := opts; getScope := scope; reports := [] |}
    with (configured opts scope).
  rewrite analyse_reports. cbn [configured reports getScope app].
  destruct (shadowed scope); [done|]. by rewrite reported_eq.
Qed.

(** X7: allowing more names never adds a diagnostic: when every name of one
    allow-list is in another, the diagnostics under the second are among
    those under the first, in the same order. *)
Theorem allowing_more_reports_less (opts1 opts2 : list RuleOptions) (scope : Scope) :
  (forall X, In X (allowed (configured opts1 scope)) ->
             In X (allowed (configured opts2 scope))) ->
  sublist (diagnostics opts2 scope) (diagnostics opts1 scope).
Proof.
  intros Hsub. rewrite !diagnostics_eq. destruct (shadowed scope); [constructor|].
  apply map_sublist, filter_sublist_impl. intros r [Ha HX]%flagged_iff.
  apply flagged_iff. split; [done|]. intros X Hn.
  destruct (HX X Hn) as [|Hno]; [by left|right]. intros Hin. by apply Hno, Hsub.
Qed.

Lemma allowing_more_reports_less_witness :
  sublist
    (diagnostics [ {| allow := Some ["hook"; "config"] |} ]
       (script [sails_hook; sails_key]))
    (diagnostics [ {| allow := Some ["config"] |} ] (script [sails_hook; sails_key])).
Proof.
  apply (allowing_more_reports_less
           [ {| allow := Some ["config"] |} ]
           [ {| allow := Some ["hook"; "config"] |} ]
           (script [sails_hook; sails_key])).
  intros X [<-|[]]. right. left. reflexivity.
Defined.

(** X8: the allow-list counts as a set: two allow-lists with the same
    names, in any order and with any repetition, give the same diagnostics. *)
Theorem allow_list_is_a_set (opts1 opts2 : list RuleOptions) (scope : Scope) :
  (forall X, In X (allowed (configured opts1 scope)) <->
             In X (allowed (configured opts2 scope))) ->
  diagnostics opts1 scope = diagnostics opts2 scope.
Proof.
  intros Hsame. rewrite !diagnostics_eq. destruct (shadowed scope); [done|].
  f_equal. apply List.filter_ext. intros r.
  apply eq_true_iff_eq. rewrite !flagged_iff.
  split; intros [Ha HX]; (split; [done|]); intros X Hn;
    (destruct (HX X Hn) as [|Hno]; [by left|right]); intros Hin;
    by apply Hno, Hsame.
Qed.

Lemma allow_list_is_a_set_witness :
  diagnostics [ {| allow := Some ["hook"; "config"; "hook"] |} ]
    (script [sails_hook; sails_key]) =
  diagnostics [ {| allow := Some ["config"; "hook"] |} ]
    (script [sails_hook; sails_key]).
Proof.
  apply (allow_list_is_a_set
           [ {| allow := Some ["hook"; "config"; "hook"] |} ]
           [ {| allow := Some ["config"; "hook"] |} ]
           (script [sails_hook; sails_key])).
  intros X. cbn. tauto.
Defined.

(** ** The order of the diagnostics *)

(** X9: when [sails] is declared nowhere in the scope chain, the
    diagnostics of a program follow its unresolved references: those of the
    references of a first part, then those of the rest. *)
Theorem diagnostics_follow_through
    (opts : list RuleOptions) (scope : Scope) (first rest : list Reference) :
  getVariableByName scope "sails" = None ->
  diagnostics opts (with_through scope (first ++ rest)) =
  diagnostics opts (with_through scope first) ++
  diagnostics opts (with_through scope rest).
Proof.
  intros Hv. rewrite !diagnostics_eq. unfold shadowed, restricted_references.
  rewrite !getVariableByName_with_through, Hv. cbn [with_through through].
  rewrite !List.filter_app, map_app. f_equal; f_equal;
    apply List.filter_ext; intros r; by apply isMemberAccessExceptAllowed_options.
Qed.

Lemma diagnostics_follow_through_witness :
  diagnostics [] (script [sails_hook; sails_key]) =
  diagnostics [] (script [sails_hook]) ++ diagnostics [] (script [sails_key]).
Proof.
  apply (diagnostics_follow_through [] (script []) [sails_hook] [sails_key]).
  vm_compute. reflexivity.
Defined.

(** ** From the configuration to the allow-list *)

Lemma accepts_cases (configured : list json) :
  accepts configured = true ->
  configured = [] \/
  exists members, configured = [JObject members] /\
    forall k v, In (k, v) members ->
      k = "allow" /\
      exists names, v = JArray (map JString names) /\ names <> [] /\ NoDup names.
Proof.
  unfold accepts. rewrite validate_array.
  cbn [options_schema type items minItems maxItems uniqueItems json_type_eqb andb
       Nat.leb].
  destruct configured as [|o [|o' rest]]; [by left| |by rewrite !andb_false_r].
  destruct o as [| | | | |members]; try done.
  change (length [JObject members] <=? length meta_schema)%nat with true.
  rewrite !andb_true_r, validate_options_object. intros H. right. by exists members.
Qed.

(** X10: for options the schema accepts, the allow-list [create] reads holds
    exactly the strings of the [allow] property of the one object, none of
    them twice, and is empty when there is no object or no [allow]. *)
Theorem accepted_allow_list (configured : list json) (scope : Scope)
    (prior : list Diagnostic) :
  accepts configured = true ->
  exists opts,
    options_of_json configured = Some opts /\
    NoDup (allowed {| options := opts; getScope := scope; reports := prior |}) /\
    forall name,
      In name (allowed {| options := opts; getScope := scope; reports := prior |}) <->
      exists members elements,
        configured = [JObject members] /\
        member "allow" members = Some (JArray elements) /\
        In (JString name) elements.
Proof.
  intros [->|(members & -> & H)]%accepts_cases.
  - exists []. split; [done|]. split; [constructor|].
    intros name. split; [done|]. by intros (? & ? & ? & _).
  - unfold options_of_json. cbn [mapM RuleOptions_of_json].
    destruct (member "allow" members) as [v|] eqn:E.
    + destruct (H _ _ (member_In _ _ _ E)) as [_ (names & -> & _ & Hnd)].
      rewrite mapM_string_of_json. exists [ {| allow := Some names |} ].
      split; [done|]. split; [done|]. intros name. cbn. split.
      * intros Hin. exists members, (map JString names).
        split; [done|]. split; [done|]. by apply in_map.
      * intros (members' & elements & [= <-] & Hm & Hin).
        rewrite E in Hm. injection Hm as <-.
        apply in_map_iff in Hin as (x & [= ->] & Hx). done.
    + exists [ {| allow := None |} ]. split; [done|]. split; [constructor|].
      intros name. split; [done|].
      intros (members' & elements & [= <-] & Hm & _). congruence.
Qed.

Lemma accepted_allow_list_witness :
  exists opts,
    options_of_json [ JObject [ ("allow", JArray [ JString "config"; JString "log" ]) ] ]
    = Some opts /\
    NoDup (allowed {| options := opts; getScope := script []; reports := [] |}).
Proof.
  destruct (accepted_allow_list
              [ JObject [ ("allow", JArray [ JString "config"; JString "log" ]) ] ]
              (script []) [] eq_refl) as (opts & Ho & Hnd & _).
  exists opts. split; [exact Ho | exact Hnd].
Defined.

(** ** Integer keys *)

Lemma digits_inj (p q : positive) : JS.digits p = JS.digits q -> p = q.
Proof.
  unfold JS.digits. intros H.
  apply (f_equal NilEmpty.uint_of_string) in H. rewrite !NilEmpty.usu in H.
  injection H as H. by apply DecimalPos.Unsigned.to_uint_inj.
Qed.

Lemma digits_not_zero (p : positive) : JS.digits p <> "0".
Proof.
  unfold JS.digits. intros H.
  apply (f_equal NilEmpty.uint_of_string) in H. rewrite NilEmpty.usu in H.
  injection H as H. by apply (DecimalPos.Unsigned.to_uint_nonzero p).
Qed.

Lemma decimal_inj (v w : N) : JS.decimal v = JS.decimal w -> v = w.
Proof.
  destruct v as [|p], w as [|q]; simpl; intros H; try done.
  - symmetry in H. by apply digits_not_zero in H.
  - by apply digits_not_zero in H.
  - f_equal. by apply digits_inj.
Qed.

(** X11: two keys that are numeric literals with different integer values
    below [2^53] have different names, the decimal digits of each: the name
    of the one is never matched by an allow-list entry for the other. *)
Theorem integer_keys_have_distinct_names
    (n1 n2 k1 k2 : ESTree.node) (v w : N) (x y : JS.number) :
  JS.number_of_N v = Some x ->
  JS.number_of_N w = Some y ->
  key_of n1 = Some k1 ->
  syntax k1 = Literal (JS.NumberValue x) ->
  key_of n2 = Some k2 ->
  syntax k2 = Literal (JS.NumberValue y) ->
  v <> w ->
  getStaticPropertyName (Some n1) = Some (JS.decimal v) /\
  getStaticPropertyName (Some n2) = Some (JS.decimal w) /\
  getStaticPropertyName (Some n1) <> getStaticPropertyName (Some n2).
Proof.
  intros Hx Hy Hk1 Hs1 Hk2 Hs2 Hne.
  rewrite (getStaticPropertyName_key _ _ Hk1), Hs1.
  rewrite (getStaticPropertyName_key _ _ Hk2), Hs2.
  cbn [JS.String_of].
  rewrite (Number_toString_integer _ _ Hx), (Number_toString_integer _ _ Hy).
  repeat split. intros [= H]. by apply decimal_inj in H.
Qed.

Lemma integer_keys_have_distinct_names_witness :
  getStaticPropertyName (Some (parent (identifier sails_100))) <>
  getStaticPropertyName
    (Some (access_node (Literal (JS.NumberValue (JS.Finite false 1 1))) true)).
Proof.
  apply (integer_keys_have_distinct_names
           (parent (identifier sails_100))
           (access_node (Literal (JS.NumberValue (JS.Finite false 1 1))) true)
           (Node 2 (span 6 11) (Literal (JS.NumberValue (JS.Finite false 1 2))))
           (Node 2 (span 6 11) (Literal (JS.NumberValue (JS.Finite false 1 1))))
           100 10 (JS.Finite false 1 2) (JS.Finite false 1 1)
           eq_refl eq_refl eq_refl eq_refl eq_refl eq_refl).
  discriminate.
Defined.
